(** * AgentManager (apps/desktop/main/agent-manager.ts)

    A shallow embedding of the [AgentManager] class: the lifecycle wrapper
    that builds a stdio transport and a protocol client for the transcriber
    agent, connects them, pings the agent and closes the transport.

    The three [async] methods are embedded as computations in a small
    state-and-exception monad.  A run of a method is atomic: an [await]
    settles with a fulfilled or a rejected outcome before the method goes
    on, and a promise that never settles is outside the model.  The
    collaborators (Node's [path] and [fs], the SDK's [Client] and
    [StdioClientTransport]) are arbitrary: their answers are given by an
    environment and may depend on everything that happened before. *)

From Stdlib Require Import String Ascii List Bool Arith ZArith Lia.
Import ListNotations.
Local Open Scope string_scope.
Local Open Scope list_scope.

Set Warnings "-register-all".

(** ** JavaScript values *)

(** The values that travel through the manager: JSON data as the client
    library hands it over, [undefined], and [Error] instances.  Numbers are
    carried as integers: the manager only passes them on. *)
Inductive JsValue : Type :=
| JsUndefined
| JsNull
| JsBool (b : bool)
| JsNumber (n : Z)
| JsString (s : string)
| JsArray (elems : list JsValue)
| JsObject (fields : list (string * JsValue))
| JsError (name message : string).

(** Outcome of running a piece of code: normal completion with a value, or
    an exception.  For an [async] method the first is a fulfilled promise and
    the second a rejected one. *)
Inductive Completion (A : Type) : Type :=
| Normal (a : A)
| Throw (e : JsValue).
Arguments Normal {A} a.
Arguments Throw {A} e.

Definition is_normal {A} (c : Completion A) : bool :=
  match c with Normal _ => true | Throw _ => false end.

(** ** Collaborator objects *)

(** [new StdioClientTransport({ command, args })]: the object keeps the
    parameters it was built with.  [transport_id] stands for the identity of
    the JavaScript object. *)
Record StdioClientTransport : Type := mkTransport {
  transport_id : nat;
  command : string;
  args : list string
}.

(** [new Client({ name, version }, { capabilities })]. *)
Record Client : Type := mkClient {
  client_id : nat;
  client_name : string;
  client_version : string;
  capabilities : list (string * JsValue)
}.

(** One element of a tool result's [content].  The SDK types the elements
    as objects (text, image and resource blocks); an element is given by its
    fields ([type], [text], [data], ...).  The cast [as any] in [pingAgent]
    changes the static type of the read, not the element. *)
Definition ContentBlock : Type := list (string * JsValue).

(** What [callTool] resolves with. *)
Record CallToolResult : Type := mkResult {
  content : list ContentBlock
}.

(** ** Observable events *)

Inductive Event : Type :=
| EvConsoleLog (line : list JsValue)
| EvConsoleError (line : list JsValue)
| EvExistsSync (path : string)
| EvConnect (c : Client) (t : StdioClientTransport)
| EvCallTool (c : Client) (name : string) (arguments : list (string * JsValue))
| EvClose (t : StdioClientTransport).

Definition is_connect (ev : Event) : bool :=
  match ev with EvConnect _ _ => true | _ => false end.

Definition is_callTool (ev : Event) : bool :=
  match ev with EvCallTool _ _ _ => true | _ => false end.

Definition is_close (ev : Event) : bool :=
  match ev with EvClose _ => true | _ => false end.

(** Number of [close] calls recorded in a trace. *)
Definition close_calls (tr : list Event) : nat :=
  length (filter is_close tr).

(** Number of [callTool] calls recorded in a trace. *)
Definition tool_calls (tr : list Event) : nat :=
  length (filter is_callTool tr).

(** The trace records a connection attempt. *)
Definition has_connect (tr : list Event) : bool :=
  existsb is_connect tr.

(** ** The environment *)

(** Everything the manager does not own.  The answers of [fs], of the
    client and of the transport take the trace of what happened so far, so
    that they may change from one call to the next. *)
Record Env : Type := mkEnv {
  dirname : string;
  path_resolve : string -> string -> string;
  path_join : string -> string -> string;
  fs_existsSync : list Event -> string -> bool;
  client_connect :
    list Event -> Client -> StdioClientTransport -> Completion unit;
  client_callTool :
    list Event -> Client -> string -> list (string * JsValue) ->
    Completion CallToolResult;
  transport_close : list Event -> StdioClientTransport -> Completion unit
}.

(** ** State *)

(** The two private fields of the instance, the allocator of object
    identities, and the trace of events in the order they happened. *)
Record State : Type := mkState {
  this_client : option Client;
  this_transport : option StdioClientTransport;
  next_id : nat;
  trace : list Event
}.

(** [new AgentManager()]: both fields are [null]. *)
Definition initial : State :=
  {| this_client := None; this_transport := None; next_id := 0; trace := [] |}.

(** ** The monad *)

Definition Async (A : Type) : Type := State -> Completion A * State.

Definition ret {A} (a : A) : Async A := fun st => (Normal a, st).

Definition throw {A} (e : JsValue) : Async A := fun st => (Throw e, st).

Definition bind {A B} (m : Async A) (k : A -> Async B) : Async B :=
  fun st =>
    match m st with
    | (Normal a, st') => k a st'
    | (Throw e, st') => (Throw e, st')
    end.

(** [try { body } catch (error) { handler }] *)
Definition try_catch {A} (body : Async A) (handler : JsValue -> Async A)
  : Async A :=
  fun st =>
    match body st with
    | (Normal a, st') => (Normal a, st')
    | (Throw e, st') => handler e st'
    end.

Declare Scope async_scope.
Delimit Scope async_scope with async.
Notation "x <- m ;; k" := (bind m (fun x => k))
  (at level 61, m at next level, right associativity) : async_scope.
Notation "m ;; k" := (bind m (fun _ => k))
  (at level 61, right associativity) : async_scope.
Local Open Scope async_scope.

Definition outcome {A} (r : Completion A * State) : Completion A := fst r.
Definition final {A} (r : Completion A * State) : State := snd r.

(** *** Primitive actions *)

Definition emit (ev : Event) : Async unit :=
  fun st =>
    (Normal tt,
     {| this_client := this_client st;
        this_transport := this_transport st;
        next_id := next_id st;
        trace := trace st ++ [ev] |}).

Definition console_log (line : list JsValue) : Async unit :=
  emit (EvConsoleLog line).

Definition console_error (line : list JsValue) : Async unit :=
  emit (EvConsoleError line).

Definition get_client : Async (option Client) :=
  fun st => (Normal (this_client st), st).

Definition get_transport : Async (option StdioClientTransport) :=
  fun st => (Normal (this_transport st), st).

Definition set_client (c : option Client) : Async unit :=
  fun st =>
    (Normal tt,
     {| this_client := c;
        this_transport := this_transport st;
        next_id := next_id st;
        trace := trace st |}).

Definition set_transport (t : option StdioClientTransport) : Async unit :=
  fun st =>
    (Normal tt,
     {| this_client := this_client st;
        this_transport := t;
        next_id := next_id st;
        trace := trace st |}).

(** A fresh object identity. *)
Definition fresh : Async nat :=
  fun st =>
    (Normal (next_id st),
     {| this_client := this_client st;
        this_transport := this_transport st;
        next_id := S (next_id st);
        trace := trace st |}).

(** The [TypeError] V8 raises for a property read on [undefined] or
    [null]. *)
Definition cannot_read (of_what prop : string) : JsValue :=
  JsError "TypeError"
    ("Cannot read properties of " ++ of_what ++ " (reading '" ++ prop ++ "')").

(** A method call through a field that may be [null]. *)
Definition deref {A} (prop : string) (o : option A) : Async A :=
  match o with
  | Some a => ret a
  | None => throw (cannot_read "null" prop)
  end.

(** Awaiting a promise: a rejection is thrown at the [await]. *)
Definition await {A} (c : Completion A) : Async A :=
  fun st => (c, st).

(** ** Node's [path] module, POSIX flavour *)

(** The manager only needs [path.resolve] and [path.join]; both are fields
    of the environment.  [PosixPath] is the instance for macOS and Linux,
    the platforms the source names. *)
Module PosixPath.

Local Open Scope string_scope.

Definition slash : ascii := "/"%char.

Fixpoint split_on (sep : ascii) (s : string) : list string :=
  match s with
  | EmptyString => [EmptyString]
  | String ch rest =>
      if Ascii.eqb ch sep then EmptyString :: split_on sep rest
      else
        match split_on sep rest with
        | seg :: segs => String ch seg :: segs
        | [] => [String ch EmptyString]
        end
  end.

(** One step of [normalizeString]: the segments kept so far are held
    innermost first. *)
Definition push_segment (allowAboveRoot : bool) (kept : list string)
    (seg : string) : list string :=
  if (seg =? EmptyString) || (seg =? ".") then kept
  else if seg =? ".." then
    match kept with
    | [] => if allowAboveRoot then [seg] else []
    | top :: below =>
        if top =? ".." then (if allowAboveRoot then seg :: kept else kept)
        else below
    end
  else seg :: kept.

Definition normalizeString (p : string) (allowAboveRoot : bool) : string :=
  String.concat "/"
    (rev (fold_left (push_segment allowAboveRoot) (split_on slash p) [])).

Definition isAbsolute (p : string) : bool :=
  match p with
  | String ch _ => Ascii.eqb ch slash
  | EmptyString => false
  end.

Fixpoint ends_with_slash (p : string) : bool :=
  match p with
  | EmptyString => false
  | String ch EmptyString => Ascii.eqb ch slash
  | String _ rest => ends_with_slash rest
  end.

Definition normalize (p : string) : string :=
  if p =? EmptyString then "."
  else
    let body := normalizeString p (negb (isAbsolute p)) in
    if body =? EmptyString then
      (if isAbsolute p then "/" else if ends_with_slash p then "./" else ".")
    else
      let body' : string := if ends_with_slash p then body ++ "/" else body in
      if isAbsolute p then "/" ++ body' else body'.

(** [path.join(a, b)] *)
Definition join (a b : string) : string :=
  if a =? EmptyString then normalize b
  else if b =? EmptyString then normalize a
  else normalize (a ++ "/" ++ b).

(** [path.resolve(a, b)] in working directory [cwd] (an absolute path). *)
Definition resolve (cwd a b : string) : string :=
  let raw : string :=
    if isAbsolute b then b
    else
      let ab : string := if b =? EmptyString then a else a ++ "/" ++ b in
      if isAbsolute a then ab
      else if ab =? EmptyString then cwd else cwd ++ "/" ++ ab in
  "/" ++ normalizeString raw false.

End PosixPath.

(** ** The methods of [AgentManager] *)

Definition dquote : string := String (ascii_of_nat 34) EmptyString.

Definition sentinel : JsValue := JsString "Client not initialized".

Definition msg_starting : string :=
  "[AgentManager] Starting Transcriber Agent...".
Definition msg_python (pythonPath : string) : string :=
  "[AgentManager] Python: " ++ pythonPath.
Definition msg_script (scriptPath : string) : string :=
  "[AgentManager] Script: " ++ scriptPath.
Definition msg_python_missing (pythonPath : string) : string :=
  "[AgentManager] ❌ Critical Error: Python not found at " ++ pythonPath.
Definition msg_uv_sync : string :=
  "[AgentManager] Run " ++ dquote ++ "uv sync" ++ dquote
  ++ " in agents/transcriber/ to create the venv.".
Definition msg_script_missing (scriptPath : string) : string :=
  "[AgentManager] ❌ Critical Error: Script not found at " ++ scriptPath.
Definition msg_connected : string :=
  "[AgentManager] Connected to Transcriber Agent!".
Definition msg_connection_failed : string :=
  "[AgentManager] Connection failed:".
Definition msg_sending : string :=
  "[AgentManager] Sending 'ping' tool call...".
Definition msg_received : string := "[AgentManager] 📩 Received:".
Definition msg_ping_failed : string := "[AgentManager] Ping failed:".
Definition msg_closed : string := "[AgentManager] Transport closed.".

(** Own property of an object, [undefined] when it has none of that name. *)
Fixpoint get_field (k : string) (fields : list (string * JsValue)) : JsValue :=
  match fields with
  | [] => JsUndefined
  | (k', v) :: rest => if k' =? k then v else get_field k rest
  end.

(** [(x as any).text] where [x] is [content[0]]: an element of the array,
    or [undefined] when the index is out of range. *)
Definition prop_text (x : option ContentBlock) : Async JsValue :=
  match x with
  | Some block => ret (get_field "text" block)
  | None => throw (cannot_read "undefined" "text")
  end.

Section Methods.

Variable E : Env.

Definition projectRoot : string := path_resolve E (dirname E) "../../..".
Definition pythonPath : string :=
  path_join E projectRoot "agents/transcriber/.venv/bin/python".
Definition scriptPath : string :=
  path_join E projectRoot "agents/transcriber/main.py".

(** An interaction with a collaborator: the call is recorded, and the
    collaborator answers from what happened before the call. *)
Definition interact {A} (ev : Event) (answer : list Event -> A) : Async A :=
  fun st => bind (emit ev) (fun _ => ret (answer (trace st))) st.

(** [fs.existsSync(p)] *)
Definition existsSync (p : string) : Async bool :=
  interact (EvExistsSync p) (fun history => fs_existsSync E history p).

(** [new StdioClientTransport({ command, args })] *)
Definition new_StdioClientTransport (cmd : string) (arguments : list string)
  : Async StdioClientTransport :=
  id <- fresh ;;
  ret {| transport_id := id; command := cmd; args := arguments |}.

(** [new Client({ name, version }, { capabilities })] *)
Definition new_Client (name version : string)
    (caps : list (string * JsValue)) : Async Client :=
  id <- fresh ;;
  ret {| client_id := id; client_name := name; client_version := version;
         capabilities := caps |}.

(** [await client.connect(transport)] *)
Definition connect (c : Client) (t : StdioClientTransport) : Async unit :=
  p <- interact (EvConnect c t) (fun history => client_connect E history c t) ;;
  await p.

(** [await client.callTool({ name, arguments })] *)
Definition callTool (c : Client) (name : string)
    (arguments : list (string * JsValue)) : Async CallToolResult :=
  p <- interact (EvCallTool c name arguments)
         (fun history => client_callTool E history c name arguments) ;;
  await p.

(** [await transport.close()] *)
Definition close (t : StdioClientTransport) : Async unit :=
  p <- interact (EvClose t) (fun history => transport_close E history t) ;;
  await p.

(** [async start()].  The two constructors only store their parameters:
    the process is spawned when [connect] starts the transport.  Inside the
    [try], both fields are read back from [this]. *)
Definition start : Async JsValue :=
  console_log [JsString msg_starting] ;;
  console_log [JsString (msg_python pythonPath)] ;;
  console_log [JsString (msg_script scriptPath)] ;;
  python_found <- existsSync pythonPath ;;
  (if negb python_found then
     console_error [JsString (msg_python_missing pythonPath)] ;;
     console_error [JsString msg_uv_sync]
   else ret tt) ;;
  script_found <- existsSync scriptPath ;;
  (if negb script_found then
     console_error [JsString (msg_script_missing scriptPath)]
   else ret tt) ;;
  t <- new_StdioClientTransport pythonPath [scriptPath] ;;
  set_transport (Some t) ;;
  c <- new_Client "electron-host" "1.0.0" [] ;;
  set_client (Some c) ;;
  try_catch
    (oc <- get_client ;;
     c' <- deref "connect" oc ;;
     ot <- get_transport ;;
     t' <- deref "start" ot ;;
     connect c' t' ;;
     console_log [JsString msg_connected])
    (fun error => console_error [JsString msg_connection_failed; error]) ;;
  ret JsUndefined.

(** [async pingAgent()] *)
Definition pingAgent : Async JsValue :=
  oc <- get_client ;;
  match oc with
  | None => ret sentinel
  | Some _ =>
      console_log [JsString msg_sending] ;;
      try_catch
        (oc' <- get_client ;;
         c <- deref "callTool" oc' ;;
         result <- callTool c "ping" [] ;;
         text <- prop_text (nth_error (content result) 0) ;;
         console_log [JsString msg_received; text] ;;
         ret text)
        (fun error =>
           console_error [JsString msg_ping_failed; error] ;;
           throw error)
  end.

(** [async stop()] *)
Definition stop : Async JsValue :=
  ot <- get_transport ;;
  match ot with
  | Some _ =>
      ot' <- get_transport ;;
      t <- deref "close" ot' ;;
      close t ;;
      console_log [JsString msg_closed] ;;
      ret JsUndefined
  | None => ret JsUndefined
  end.

End Methods.

(** ** Sequences of calls *)

Inductive Call : Type := CallStart | CallPing | CallStop.

Definition invoke (E : Env) (c : Call) : Async JsValue :=
  match c with
  | CallStart => start E
  | CallPing => pingAgent E
  | CallStop => stop E
  end.

(** The instance after a sequence of calls, each run to completion before
    the next begins; the caller goes on whatever a call settles with. *)
Fixpoint run_calls (E : Env) (cs : list Call) (st : State) : State :=
  match cs with
  | [] => st
  | c :: rest => run_calls E rest (final (invoke E c st))
  end.

(** ** A sample environment *)

Module Sample.

Definition install_dir : string := "/opt/subs-genie/apps/desktop/main".

Definition boom : JsValue := JsError "Error" "spawn ENOENT".

Definition pong : CallToolResult :=
  {| content := [[("type", JsString "text"); ("text", JsString "pong")]] |}.

(** Everything in place: files found, every call fulfilled. *)
Definition healthy : Env :=
  {| dirname := install_dir;
     path_resolve := PosixPath.resolve "/";
     path_join := PosixPath.join;
     fs_existsSync := fun _ _ => true;
     client_connect := fun _ _ _ => Normal tt;
     client_callTool := fun _ _ _ _ => Normal pong;
     transport_close := fun _ _ => Normal tt |}.

(** Nothing in place: files missing, every call rejected with [boom]. *)
Definition broken : Env :=
  {| dirname := install_dir;
     path_resolve := PosixPath.resolve "/";
     path_join := PosixPath.join;
     fs_existsSync := fun _ _ => false;
     client_connect := fun _ _ _ => Throw boom;
     client_callTool := fun _ _ _ _ => Throw boom;
     transport_close := fun _ _ => Throw boom |}.

(** The agent answers the ping with an empty [content]. *)
Definition empty_reply : Env :=
  {| dirname := install_dir;
     path_resolve := PosixPath.resolve "/";
     path_join := PosixPath.join;
     fs_existsSync := fun _ _ => true;
     client_connect := fun _ _ _ => Normal tt;
     client_callTool := fun _ _ _ _ => Normal {| content := [] |};
     transport_close := fun _ _ => Normal tt |}.

(** The agent answers the ping with the very text of the sentinel. *)
Definition echo_sentinel : Env :=
  {| dirname := install_dir;
     path_resolve := PosixPath.resolve "/";
     path_join := PosixPath.join;
     fs_existsSync := fun _ _ => true;
     client_connect := fun _ _ _ => Normal tt;
     client_callTool := fun _ _ _ _ =>
       Normal {| content := [[("type", JsString "text");
                              ("text", sentinel)]] |};
     transport_close := fun _ _ => Normal tt |}.

End Sample.

(** ** What the claims speak about *)

(** The instance with another trace and the same fields. *)
Definition with_trace (st : State) (tr : list Event) : State :=
  {| this_client := this_client st;
     this_transport := this_transport st;
     next_id := next_id st;
     trace := tr |}.

(** The objects [start] builds from a given state. *)
Definition started_transport (E : Env) (st : State) : StdioClientTransport :=
  {| transport_id := next_id st;
     command := pythonPath E;
     args := [scriptPath E] |}.

Definition started_client (st : State) : Client :=
  {| client_id := S (next_id st);
     client_name := "electron-host";
     client_version := "1.0.0";
     capabilities := [] |}.

(** The three opening lines of [start]. *)
Definition prologue (E : Env) : list Event :=
  [EvConsoleLog [JsString msg_starting];
   EvConsoleLog [JsString (msg_python (pythonPath E))];
   EvConsoleLog [JsString (msg_script (scriptPath E))]].

(** The check of the interpreter path made after [history], with the lines
    it prints when the file is missing. *)
Definition python_check (E : Env) (history : list Event) : list Event :=
  EvExistsSync (pythonPath E) ::
  (if fs_existsSync E history (pythonPath E) then []
   else [EvConsoleError [JsString (msg_python_missing (pythonPath E))];
         EvConsoleError [JsString msg_uv_sync]]).

(** The same for the script path. *)
Definition script_check (E : Env) (history : list Event) : list Event :=
  EvExistsSync (scriptPath E) ::
  (if fs_existsSync E history (scriptPath E) then []
   else [EvConsoleError [JsString (msg_script_missing (scriptPath E))]]).

(** The trace when [start], begun at trace [tr], reaches the connect. *)
Definition checked (E : Env) (tr : list Event) : list Event :=
  let h1 := tr ++ prologue E in
  let h2 := h1 ++ python_check E h1 in
  h2 ++ script_check E h2.

(** The line [start] prints for the outcome of the connect. *)
Definition connect_report (p : Completion unit) : Event :=
  match p with
  | Normal _ => EvConsoleLog [JsString msg_connected]
  | Throw e => EvConsoleError [JsString msg_connection_failed; e]
  end.

(** The trace at the moment [pingAgent] reaches the client. *)
Definition ping_history (st : State) : list Event :=
  trace st ++ [EvConsoleLog [JsString msg_sending]].

(** What [pingAgent] settles with, given what [callTool] settled with. *)
Definition ping_reply (p : Completion CallToolResult) : Completion JsValue :=
  match p with
  | Throw e => Throw e
  | Normal result =>
      match content result with
      | [] => Throw (cannot_read "undefined" "text")
      | first :: _ => Normal (get_field "text" first)
      end
  end.

(** The line [pingAgent] prints for what it settles with. *)
Definition ping_report (r : Completion JsValue) : Event :=
  match r with
  | Normal text => EvConsoleLog [JsString msg_received; text]
  | Throw e => EvConsoleError [JsString msg_ping_failed; e]
  end.

(** A call propagates failure when some run of it rejects. *)
Definition propagates_failure (c : Call) : Prop :=
  exists E st e, outcome (invoke E c st) = Throw e.

Definition only_pingAgent_propagates : Prop :=
  forall c, propagates_failure c -> c = CallPing.

(** The instance right after a completed [start] in the broken
    environment, and in the one that echoes the sentinel. *)
Definition broken_started : State := final (start Sample.broken initial).
Definition echo_started : State := final (start Sample.echo_sentinel initial).
Definition healthy_started : State := final (start Sample.healthy initial).
Definition empty_started : State := final (start Sample.empty_reply initial).

(** ** Footprints and invariants *)

(** [export const agentManager = new AgentManager()]: the instance the rest
    of the application shares. *)
Definition agentManager : State := initial.

Definition is_console_error (ev : Event) : bool :=
  match ev with EvConsoleError _ => true | _ => false end.

Definition is_existsSync (ev : Event) : bool :=
  match ev with EvExistsSync _ => true | _ => false end.

(** Number of lines written to the error stream. *)
Definition error_lines (tr : list Event) : nat :=
  length (filter is_console_error tr).

(** Number of [connect] calls recorded in a trace. *)
Definition connect_calls (tr : list Event) : nat :=
  length (filter is_connect tr).

(** Number of [fs.existsSync] calls recorded in a trace. *)
Definition exists_checks (tr : list Event) : nat :=
  length (filter is_existsSync tr).

Definition is_start (c : Call) : bool :=
  match c with CallStart => true | _ => false end.

Definition is_ping (c : Call) : bool :=
  match c with CallPing => true | _ => false end.

Definition is_stop (c : Call) : bool :=
  match c with CallStop => true | _ => false end.

Definition count_calls (f : Call -> bool) (cs : list Call) : nat :=
  length (filter f cs).

(** The calls made after the first [start] of a sequence. *)
Fixpoint after_first_start (cs : list Call) : list Call :=
  match cs with
  | [] => []
  | CallStart :: rest => rest
  | _ :: rest => after_first_start rest
  end.

(** The two fields are either both [null], or hold the client and the
    transport one run of [start] built: consecutive identities, the fixed
    client description, and the resolved paths. *)
Definition fields_paired (E : Env) (st : State) : Prop :=
  match this_client st, this_transport st with
  | None, None => True
  | Some c, Some t =>
      client_id c = S (transport_id t)
      /\ client_id c < next_id st
      /\ client_name c = "electron-host"
      /\ client_version c = "1.0.0"
      /\ capabilities c = []
      /\ command t = pythonPath E
      /\ args t = [scriptPath E]
  | _, _ => False
  end.

(** Every object the instance holds or will build has identity at least
    [n]. *)
Definition built_since (n : nat) (st : State) : Prop :=
  n <= next_id st
  /\ match this_transport st with
     | Some t => n <= transport_id t
     | None => True
     end.

(** The files are in place but the agent refuses the connection and
    answers with a block that has no [text]. *)
Definition image_reply : Env :=
  {| dirname := Sample.install_dir;
     path_resolve := PosixPath.resolve "/";
     path_join := PosixPath.join;
     fs_existsSync := fun _ _ => true;
     client_connect := fun _ _ _ => Throw Sample.boom;
     client_callTool := fun _ _ _ _ =>
       Normal {| content := [[("type", JsString "image");
                              ("data", JsString "AAAA")]] |};
     transport_close := fun _ _ => Normal tt |}.

Definition image_started : State := final (start image_reply initial).

(** ** Running the methods *)

Arguments msg_python : simpl never.
Arguments msg_script : simpl never.
Arguments msg_python_missing : simpl never.
Arguments msg_script_missing : simpl never.

Ltac reduce_async :=
  cbn [fst snd this_client this_transport next_id trace negb content
       nth_error].

Ltac unfold_async :=
  unfold connect, callTool, close, existsSync, interact,
    new_StdioClientTransport, new_Client, console_log, console_error, emit,
    fresh, get_client, get_transport, set_client, set_transport, try_catch,
    deref, prop_text, bind, await, ret, throw, outcome, final, with_trace;
  reduce_async.

Ltac flatten_trace := repeat rewrite <- app_assoc; cbn [app].

Ltac count_events :=
  unfold connect_calls, tool_calls, close_calls, error_lines, exists_checks;
  repeat rewrite filter_app; repeat rewrite length_app;
  cbn [filter length app is_connect is_callTool is_close is_console_error
       is_existsSync].

Lemma start_run (E : Env) (st : State) :
  start E st =
    (Normal JsUndefined,
     {| this_client := Some (started_client st);
        this_transport := Some (started_transport E st);
        next_id := S (S (next_id st));
        trace :=
          checked E (trace st) ++
          [EvConnect (started_client st) (started_transport E st);
           connect_report
             (client_connect E (checked E (trace st))
                (started_client st) (started_transport E st))] |}).
Proof.
  unfold start, checked, python_check, script_check, prologue,
    started_client, started_transport.
  unfold_async. flatten_trace.
  destruct (fs_existsSync E _ (pythonPath E)); reduce_async; flatten_trace;
    (destruct (fs_existsSync E _ (scriptPath E)); reduce_async;
     flatten_trace);
    match goal with
    | |- context [client_connect E ?h ?c ?t] =>
        destruct (client_connect E h c t) as [[]|e]
    end; reduce_async; cbn [connect_report]; flatten_trace; reflexivity.
Qed.

Lemma pingAgent_idle (E : Env) (st : State) :
  this_client st = None -> pingAgent E st = (Normal sentinel, st).
Proof.
  intros Hnull. unfold pingAgent. unfold_async. rewrite Hnull. reflexivity.
Qed.

Lemma pingAgent_run (E : Env) (st : State) (c : Client) :
  this_client st = Some c ->
  pingAgent E st =
    (ping_reply (client_callTool E (ping_history st) c "ping" []),
     with_trace st
       (ping_history st ++
        [EvCallTool c "ping" [];
         ping_report
           (ping_reply (client_callTool E (ping_history st) c "ping" []))])).
Proof.
  intros Hc. unfold pingAgent, ping_history. unfold_async.
  repeat (rewrite Hc; reduce_async).
  destruct (client_callTool E _ c "ping" []) as [[[|first rest]]|e];
    reduce_async; cbn [ping_reply ping_report content]; flatten_trace;
    reflexivity.
Qed.

Lemma stop_idle (E : Env) (st : State) :
  this_transport st = None -> stop E st = (Normal JsUndefined, st).
Proof.
  intros Hnull. unfold stop. unfold_async. rewrite Hnull. reflexivity.
Qed.

Lemma stop_run (E : Env) (st : State) (t : StdioClientTransport) :
  this_transport st = Some t ->
  stop E st =
    match transport_close E (trace st) t with
    | Normal _ =>
        (Normal JsUndefined,
         with_trace st
           (trace st ++ [EvClose t; EvConsoleLog [JsString msg_closed]]))
    | Throw e => (Throw e, with_trace st (trace st ++ [EvClose t]))
    end.
Proof.
  intros Ht. unfold stop. unfold_async. repeat (rewrite Ht; reduce_async).
  destruct (transport_close E (trace st) t) as [[]|e];
    reduce_async; flatten_trace; reflexivity.
Qed.

(** *** What a call does to the fields and to the connect record *)

Lemma has_connect_app (tr tr' : list Event) :
  has_connect (tr ++ tr') = has_connect tr || has_connect tr'.
Proof. apply existsb_app. Qed.

Lemma close_calls_app (tr tr' : list Event) :
  close_calls (tr ++ tr') = close_calls tr + close_calls tr'.
Proof. unfold close_calls. rewrite filter_app, length_app. reflexivity. Qed.

Lemma tool_calls_app (tr tr' : list Event) :
  tool_calls (tr ++ tr') = tool_calls tr + tool_calls tr'.
Proof. unfold tool_calls. rewrite filter_app, length_app. reflexivity. Qed.

Lemma pingAgent_fields (E : Env) (st : State) :
  this_client (final (pingAgent E st)) = this_client st
  /\ this_transport (final (pingAgent E st)) = this_transport st
  /\ has_connect (trace (final (pingAgent E st))) = has_connect (trace st).
Proof.
  destruct (this_client st) as [c|] eqn:Hc.
  - rewrite (pingAgent_run E st c Hc). unfold final, with_trace, ping_history.
    cbn [snd this_client this_transport trace]. repeat split; auto.
    rewrite !has_connect_app.
    destruct (ping_reply _); cbn; rewrite !orb_false_r; reflexivity.
  - rewrite (pingAgent_idle E st Hc). cbn. rewrite Hc. auto.
Qed.

Lemma stop_fields (E : Env) (st : State) :
  this_client (final (stop E st)) = this_client st
  /\ this_transport (final (stop E st)) = this_transport st
  /\ has_connect (trace (final (stop E st))) = has_connect (trace st).
Proof.
  destruct (this_transport st) as [t|] eqn:Ht.
  - rewrite (stop_run E st t Ht).
    destruct (transport_close E (trace st) t) as [[]|e];
      unfold final, with_trace; cbn [snd this_client this_transport trace];
      rewrite has_connect_app; cbn; rewrite orb_false_r; auto.
  - rewrite (stop_idle E st Ht). cbn. rewrite Ht. auto.
Qed.

Lemma start_fields (E : Env) (st : State) :
  this_client (final (start E st)) = Some (started_client st)
  /\ this_transport (final (start E st)) = Some (started_transport E st)
  /\ has_connect (trace (final (start E st))) = true.
Proof.
  rewrite start_run. unfold final. cbn [snd this_client this_transport trace].
  repeat split. rewrite has_connect_app. cbn. apply orb_true_r.
Qed.

Lemma run_calls_client (E : Env) (cs : list Call) :
  forall st,
    this_client (run_calls E cs st) <> None <->
    this_client st <> None \/ In CallStart cs.
Proof.
  induction cs as [|c cs IH]; intros st; cbn [run_calls In].
  - tauto.
  - rewrite IH. destruct c; cbn [invoke].
    + destruct (start_fields E st) as [Hc _]. rewrite Hc.
      split; intros _; [right; left; reflexivity | left; discriminate].
    + destruct (pingAgent_fields E st) as [Hc _]. rewrite Hc.
      split; intros [H|H]; auto. destruct H as [H|H]; [discriminate | auto].
    + destruct (stop_fields E st) as [Hc _]. rewrite Hc.
      split; intros [H|H]; auto. destruct H as [H|H]; [discriminate | auto].
Qed.

Lemma run_calls_connect (E : Env) (cs : list Call) :
  forall st,
    has_connect (trace (run_calls E cs st)) = true <->
    has_connect (trace st) = true \/ In CallStart cs.
Proof.
  induction cs as [|c cs IH]; intros st; cbn [run_calls In].
  - tauto.
  - rewrite IH. destruct c; cbn [invoke].
    + destruct (start_fields E st) as (_ & _ & Hc). rewrite Hc.
      split; intros _; [right; left; reflexivity | left; reflexivity].
    + destruct (pingAgent_fields E st) as (_ & _ & Hc). rewrite Hc.
      split; intros [H|H]; auto. destruct H as [H|H]; [discriminate | auto].
    + destruct (stop_fields E st) as (_ & _ & Hc). rewrite Hc.
      split; intros [H|H]; auto. destruct H as [H|H]; [discriminate | auto].
Qed.

Lemma run_calls_keeps_client (E : Env) (cs : list Call) :
  forall st c,
    this_client st = Some c -> exists c', this_client (run_calls E cs st) = Some c'.
Proof.
  intros st c Hc.
  destruct (this_client (run_calls E cs st)) as [c'|] eqn:Hrun.
  - exists c'. reflexivity.
  - exfalso. assert (H : this_client (run_calls E cs st) <> None).
    { apply run_calls_client. left. rewrite Hc. discriminate. }
    contradiction.
Qed.

Lemma run_calls_transport (E : Env) (cs : list Call) :
  forall st,
    this_transport (run_calls E cs st) <> None <->
    this_transport st <> None \/ In CallStart cs.
Proof.
  induction cs as [|c cs IH]; intros st; cbn [run_calls In].
  - tauto.
  - rewrite IH. destruct c; cbn [invoke].
    + destruct (start_fields E st) as (_ & Ht & _). rewrite Ht.
      split; intros _; [right; left; reflexivity | left; discriminate].
    + destruct (pingAgent_fields E st) as (_ & Ht & _). rewrite Ht.
      split; intros [H|H]; auto. destruct H as [H|H]; [discriminate | auto].
    + destruct (stop_fields E st) as (_ & Ht & _). rewrite Ht.
      split; intros [H|H]; auto. destruct H as [H|H]; [discriminate | auto].
Qed.

(** ** start *)

(** C1. Whatever the connect settles with, [start] is fulfilled with
    [undefined] and is never rejected.  A rejection of the connect is printed
    on the error stream and dropped; the fields and the allocator the call
    leaves behind are the same for both outcomes, so nothing records it. *)
Theorem start_always_fulfilled (E : Env) (st : State) :
  outcome (start E st) = Normal JsUndefined
  /\ is_normal (outcome (start E st)) = true
  /\ this_client (final (start E st)) = Some (started_client st)
  /\ this_transport (final (start E st)) = Some (started_transport E st)
  /\ next_id (final (start E st)) = S (S (next_id st))
  /\ exists history,
       trace (final (start E st)) =
         history ++
         [EvConnect (started_client st) (started_transport E st);
          connect_report
            (client_connect E history
               (started_client st) (started_transport E st))].
Proof.
  rewrite start_run. unfold outcome, final.
  cbn [fst snd is_normal this_client this_transport next_id trace].
  repeat split. exists (checked E (trace st)). reflexivity.
Qed.

(** C6. Whatever the two existence checks answer, [start] goes on: a
    missing file only adds lines on the error stream, and the transport is
    then built from the very paths that were checked, the client is built,
    and the connect is attempted with both. *)
Theorem start_proceeds_after_checks (E : Env) (st : State) :
  let h1 := trace st ++ prologue E in
  let h2 := h1 ++ python_check E h1 in
  let h3 := h2 ++ script_check E h2 in
  let t := started_transport E st in
  let c := started_client st in
  outcome (start E st) = Normal JsUndefined
  /\ trace (final (start E st)) =
       h3 ++ [EvConnect c t; connect_report (client_connect E h3 c t)]
  /\ this_transport (final (start E st)) = Some t
  /\ this_client (final (start E st)) = Some c
  /\ command t = pythonPath E
  /\ args t = [scriptPath E]
  /\ In (EvExistsSync (command t)) (python_check E h1)
  /\ (if fs_existsSync E h1 (pythonPath E) then
        python_check E h1 = [EvExistsSync (pythonPath E)]
      else
        In (EvConsoleError [JsString (msg_python_missing (pythonPath E))])
           (python_check E h1)
        /\ In (EvConsoleError [JsString msg_uv_sync]) (python_check E h1))
  /\ (if fs_existsSync E h2 (scriptPath E) then
        script_check E h2 = [EvExistsSync (scriptPath E)]
      else
        In (EvConsoleError [JsString (msg_script_missing (scriptPath E))])
           (script_check E h2)).
Proof.
  cbv zeta. rewrite start_run. unfold outcome, final, checked.
  cbn [fst snd this_client this_transport trace started_transport command args].
  repeat split.
  - unfold python_check. left. reflexivity.
  - unfold python_check.
    destruct (fs_existsSync E (trace st ++ prologue E) (pythonPath E)).
    + reflexivity.
    + split; cbn [In]; auto.
  - unfold script_check.
    destruct (fs_existsSync E _ (scriptPath E)).
    + reflexivity.
    + cbn [In]. auto.
Qed.

(** ** pingAgent *)

(** C2. While the client field is [null], [pingAgent] is fulfilled with the
    sentinel string and leaves the instance and the trace as they were: no
    call goes out. *)
Theorem pingAgent_uninitialized (E : Env) (st : State)
    (Hnull : this_client st = None) :
  pingAgent E st = (Normal sentinel, st)
  /\ sentinel = JsString "Client not initialized"
  /\ tool_calls (trace (final (pingAgent E st))) = tool_calls (trace st).
Proof.
  rewrite (pingAgent_idle E st Hnull). repeat split.
Qed.

Lemma pingAgent_uninitialized_witness :
  this_client initial = None
  /\ pingAgent Sample.broken initial = (Normal sentinel, initial).
Proof.
  split; [reflexivity |].
  apply (pingAgent_uninitialized Sample.broken initial). reflexivity.
Defined.

(** On an instance that never saw [start], whatever else was called. *)
Lemma pingAgent_never_started (E : Env) (cs : list Call) :
  ~ In CallStart cs ->
  pingAgent E (run_calls E cs initial) =
    (Normal sentinel, run_calls E cs initial).
Proof.
  intros Hno. apply pingAgent_idle.
  destruct (this_client (run_calls E cs initial)) eqn:Hc; [| reflexivity].
  exfalso. assert (H : this_client (run_calls E cs initial) <> None)
    by (rewrite Hc; discriminate).
  apply run_calls_client in H. destruct H as [H|H]; [apply H; reflexivity | auto].
Qed.

(** C3, as amended.  When [callTool] is rejected with [e], [pingAgent]
    prints [e] on the error stream and is rejected with that same [e].
    [start] never propagates a failure, but [stop] does: the calls that can
    be rejected are [pingAgent] and [stop]. *)
Theorem pingAgent_rethrows_exact_error (E : Env) (st : State) (c : Client)
    (e : JsValue)
    (Hc : this_client st = Some c)
    (Hreject : client_callTool E (ping_history st) c "ping" [] = Throw e) :
  pingAgent E st =
    (Throw e,
     with_trace st
       (ping_history st ++
        [EvCallTool c "ping" [];
         EvConsoleError [JsString msg_ping_failed; e]]))
  /\ (forall call,
        propagates_failure call <-> call = CallPing \/ call = CallStop).
Proof.
  split.
  - rewrite (pingAgent_run E st c Hc), Hreject. reflexivity.
  - intros call. split.
    + intros (E' & st' & e' & Hthrow). destruct call; auto.
      cbn [invoke] in Hthrow. rewrite start_run in Hthrow. discriminate.
    + intros [-> | ->].
      * exists Sample.broken, broken_started, Sample.boom. reflexivity.
      * exists Sample.broken, broken_started, Sample.boom. reflexivity.
Qed.

Lemma pingAgent_rethrows_exact_error_witness :
  outcome (pingAgent Sample.broken broken_started) = Throw Sample.boom.
Proof.
  refine (f_equal fst
    (proj1 (pingAgent_rethrows_exact_error Sample.broken broken_started
              (started_client initial) Sample.boom _ _)));
    reflexivity.
Defined.

(** C3, as stated, fails: [stop] too hands a failure to its caller. *)
Lemma stop_propagates_too :
  outcome (invoke Sample.broken CallStop broken_started) = Throw Sample.boom
  /\ ~ only_pingAgent_propagates.
Proof.
  split; [reflexivity |].
  intros Honly.
  assert (H : CallStop = CallPing).
  { apply Honly. exists Sample.broken, broken_started, Sample.boom.
    reflexivity. }
  discriminate H.
Qed.

(** C4. When [callTool] is fulfilled with a result whose [content] has a
    first element, [pingAgent] is fulfilled with the [text] field of that
    element, after one call and one line on the output stream. *)
Theorem pingAgent_returns_first_text (E : Env) (st : State) (c : Client)
    (result : CallToolResult) (first : ContentBlock)
    (rest : list ContentBlock)
    (Hc : this_client st = Some c)
    (Hreply : client_callTool E (ping_history st) c "ping" [] = Normal result)
    (Hcontent : content result = first :: rest) :
  pingAgent E st =
    (Normal (get_field "text" first),
     with_trace st
       (ping_history st ++
        [EvCallTool c "ping" [];
         EvConsoleLog [JsString msg_received; get_field "text" first]])).
Proof.
  rewrite (pingAgent_run E st c Hc), Hreply. unfold ping_reply.
  rewrite Hcontent. reflexivity.
Qed.

Lemma pingAgent_returns_first_text_witness :
  outcome (pingAgent Sample.healthy healthy_started) = Normal (JsString "pong").
Proof.
  refine (f_equal fst
    (pingAgent_returns_first_text Sample.healthy healthy_started
       (started_client initial) Sample.pong
       [("type", JsString "text"); ("text", JsString "pong")] [] _ _ _));
    reflexivity.
Defined.

(** C5. When [callTool] is fulfilled with a result whose [content] is
    empty, [pingAgent] does not complete normally: reading [text] of the
    missing first element raises a [TypeError], and the call is rejected
    with it. *)
Theorem pingAgent_empty_content_faults (E : Env) (st : State) (c : Client)
    (result : CallToolResult)
    (Hc : this_client st = Some c)
    (Hreply : client_callTool E (ping_history st) c "ping" [] = Normal result)
    (Hempty : content result = []) :
  outcome (pingAgent E st) = Throw (cannot_read "undefined" "text")
  /\ is_normal (outcome (pingAgent E st)) = false
  /\ trace (final (pingAgent E st)) =
       ping_history st ++
       [EvCallTool c "ping" [];
        EvConsoleError
          [JsString msg_ping_failed; cannot_read "undefined" "text"]].
Proof.
  rewrite (pingAgent_run E st c Hc), Hreply. unfold ping_reply.
  rewrite Hempty. repeat split.
Qed.

Lemma pingAgent_empty_content_faults_witness :
  outcome (pingAgent Sample.empty_reply empty_started) =
    Throw (JsError "TypeError"
             "Cannot read properties of undefined (reading 'text')").
Proof.
  refine (proj1
    (pingAgent_empty_content_faults Sample.empty_reply empty_started
       (started_client initial) {| content := [] |} _ _ _));
    reflexivity.
Defined.

(** ** stop *)

(** C7. [stop] calls the transport's [close] exactly when the transport
    field is set, once per call, and on that transport.  With the field
    [null] it is fulfilled and leaves everything as it was, as on a fresh
    instance.  It never clears the two fields, so a second [stop] calls
    [close] on the same transport again. *)
Theorem stop_closes_iff_transport (E : Env) (st : State) :
  let st1 := final (stop E st) in
  let st2 := final (stop E st1) in
  match this_transport st with
  | None =>
      stop E st = (Normal JsUndefined, st)
      /\ close_calls (trace st1) = close_calls (trace st)
  | Some t =>
      (exists tail,
         trace st1 = trace st ++ EvClose t :: tail /\ close_calls tail = 0)
      /\ close_calls (trace st1) = S (close_calls (trace st))
      /\ (exists tail,
            trace st2 = trace st1 ++ EvClose t :: tail /\ close_calls tail = 0)
      /\ close_calls (trace st2) = S (S (close_calls (trace st)))
  end
  /\ this_client st1 = this_client st
  /\ this_transport st1 = this_transport st
  /\ stop E initial = (Normal JsUndefined, initial).
Proof.
  cbv zeta.
  assert (Hone : forall s t, this_transport s = Some t ->
            exists tail,
              trace (final (stop E s)) = trace s ++ EvClose t :: tail
              /\ close_calls tail = 0).
  { intros s t Ht. rewrite (stop_run E s t Ht).
    destruct (transport_close E (trace s) t) as [[]|e];
      unfold final, with_trace; cbn [snd trace];
      eexists; split; reflexivity. }
  destruct (stop_fields E st) as (Hclient & Htransport & _).
  split; [| repeat split; auto].
  destruct (this_transport st) as [t|] eqn:Ht.
  - assert (Ht1 : this_transport (final (stop E st)) = Some t)
      by (rewrite Htransport; reflexivity).
    destruct (Hone st t Ht) as (tail1 & Htr1 & Hno1).
    destruct (Hone (final (stop E st)) t Ht1) as (tail2 & Htr2 & Hno2).
    assert (Hcount1 :
      close_calls (trace (final (stop E st))) = S (close_calls (trace st))).
    { rewrite Htr1, close_calls_app.
      change (close_calls (EvClose t :: tail1)) with (S (close_calls tail1)).
      lia. }
    repeat split.
    + exists tail1. auto.
    + exact Hcount1.
    + exists tail2. auto.
    + rewrite Htr2, close_calls_app, Hcount1.
      change (close_calls (EvClose t :: tail2)) with (S (close_calls tail2)).
      lia.
  - rewrite (stop_idle E st Ht). auto.
Qed.

(** On an instance that never saw [start], whatever else was called. *)
Lemma stop_never_started (E : Env) (cs : list Call) :
  ~ In CallStart cs ->
  stop E (run_calls E cs initial) =
    (Normal JsUndefined, run_calls E cs initial).
Proof.
  intros Hno. apply stop_idle.
  destruct (this_transport (run_calls E cs initial)) eqn:Ht; [| reflexivity].
  exfalso. assert (H : this_transport (run_calls E cs initial) <> None)
    by (rewrite Ht; discriminate).
  apply run_calls_transport in H.
  destruct H as [H|H]; [apply H; reflexivity | auto].
Qed.

(** C10. [stop] has no handler: when the transport's [close] is rejected
    with [e], [stop] is rejected with [e], the line that reports the close is
    not printed, and the two fields stay as they were. *)
Theorem stop_propagates_close_error (E : Env) (st : State)
    (t : StdioClientTransport) (e : JsValue)
    (Ht : this_transport st = Some t)
    (Hreject : transport_close E (trace st) t = Throw e) :
  stop E st = (Throw e, with_trace st (trace st ++ [EvClose t]))
  /\ ~ In (EvConsoleLog [JsString msg_closed])
          (skipn (length (trace st)) (trace (final (stop E st))))
  /\ this_client (final (stop E st)) = this_client st
  /\ this_transport (final (stop E st)) = this_transport st.
Proof.
  rewrite (stop_run E st t Ht), Hreject. unfold final, with_trace.
  cbn [snd this_client this_transport trace]. repeat split.
  rewrite skipn_app, skipn_all, Nat.sub_diag. cbn [skipn app In].
  intros [H|[]]. discriminate H.
Qed.

Lemma stop_propagates_close_error_witness :
  this_transport broken_started = Some (started_transport Sample.broken initial)
  /\ outcome (stop Sample.broken broken_started) = Throw Sample.boom
  /\ this_client (final (stop Sample.broken broken_started))
     = this_client broken_started.
Proof.
  split; [reflexivity |].
  destruct (stop_propagates_close_error Sample.broken broken_started
              (started_transport Sample.broken initial) Sample.boom
              eq_refl eq_refl) as (Hrun & _ & Hclient & _).
  split; [exact (f_equal fst Hrun) | exact Hclient].
Defined.

(** ** The instance over sequences of calls *)

(** C8. After any sequence of calls on a fresh instance, each run to
    completion, the client field is set exactly when [start] was among
    them, which is exactly when a connection attempt has been made; whether
    the attempts succeeded plays no part. *)
Theorem client_set_iff_started (E : Env) (cs : list Call) :
  let st := run_calls E cs initial in
  (this_client st <> None <-> In CallStart cs)
  /\ (In CallStart cs <-> has_connect (trace st) = true)
  /\ (this_client st <> None <-> has_connect (trace st) = true).
Proof.
  cbv zeta.
  pose proof (run_calls_client E cs initial) as Hclient.
  pose proof (run_calls_connect E cs initial) as Hconnect.
  cbn [initial this_client trace has_connect existsb] in Hclient, Hconnect.
  assert (Hc : this_client (run_calls E cs initial) <> None <-> In CallStart cs).
  { rewrite Hclient. split; [intros [H|H]; [contradiction H; reflexivity | exact H] | auto]. }
  assert (Hk : In CallStart cs <-> has_connect (trace (run_calls E cs initial)) = true).
  { rewrite Hconnect. split; [auto | intros [H|H]; [discriminate H | exact H]]. }
  repeat split; try tauto.
Qed.

(** C9, as amended.  Once [start] has completed, whatever the checks and
    the connect answered and whatever was called since, [pingAgent] does not
    take the early return: the client field is set, exactly one ["ping"]
    call goes out through that client, and [pingAgent] settles with what
    the client's answer gives. *)
Theorem pingAgent_after_start_calls_client (E : Env) (st0 : State)
    (cs : list Call) :
  let st := run_calls E cs (final (start E st0)) in
  exists c,
    this_client st = Some c
    /\ pingAgent E st =
         (ping_reply (client_callTool E (ping_history st) c "ping" []),
          with_trace st
            (ping_history st ++
             [EvCallTool c "ping" [];
              ping_report
                (ping_reply
                   (client_callTool E (ping_history st) c "ping" []))]))
    /\ tool_calls (trace (final (pingAgent E st))) = S (tool_calls (trace st)).
Proof.
  cbv zeta.
  destruct (start_fields E st0) as (Hstarted & _).
  destruct (run_calls_keeps_client E cs _ _ Hstarted) as (c & Hc).
  exists c. split; [exact Hc |].
  rewrite (pingAgent_run E _ c Hc). split; [reflexivity |].
  unfold final, with_trace, ping_history. cbn [snd trace].
  rewrite !tool_calls_app.
  destruct (ping_reply _); cbn; lia.
Qed.

(** C9, as stated, fails: an agent that answers the ping with the text of
    the sentinel makes [pingAgent] return it after a completed [start]. *)
Lemma pingAgent_may_return_sentinel_text :
  this_client echo_started <> None
  /\ outcome (pingAgent Sample.echo_sentinel echo_started)
     = Normal (JsString "Client not initialized").
Proof.
  split; [discriminate | reflexivity].
Qed.

(** ** Sample runs *)

Example start_with_everything_missing :
  outcome (start Sample.broken initial) = Normal JsUndefined
  /\ skipn 8 (trace broken_started) =
       [EvConnect (started_client initial)
          (started_transport Sample.broken initial);
        EvConsoleError [JsString msg_connection_failed; Sample.boom]]
  /\ close_calls
       (trace (run_calls Sample.healthy [CallStart; CallStop; CallStop]
                 initial)) = 2
  /\ run_calls Sample.healthy [CallPing; CallStop; CallPing] initial = initial.
Proof. repeat split. Qed.

(** ** Node's path functions on the sample installation *)

Example sample_paths :
  projectRoot Sample.healthy = "/opt/subs-genie"
  /\ pythonPath Sample.healthy
     = "/opt/subs-genie/agents/transcriber/.venv/bin/python"
  /\ scriptPath Sample.healthy = "/opt/subs-genie/agents/transcriber/main.py".
Proof. repeat split. Qed.

Example posix_join_normalizes :
  PosixPath.join "a/b/" "../c/" = "a/c/"
  /\ PosixPath.join "../a" "../../b" = "../../b"
  /\ PosixPath.join EmptyString EmptyString = "."
  /\ PosixPath.resolve "/home" "x" "../../../y" = "/y".
Proof. repeat split. Qed.


(** ** What each method touches *)

(** X1. One run of [start] asks [fs] exactly twice and the client for
    exactly one connect; it never calls a tool and never closes anything,
    so a transport it replaces is left open. *)
Theorem start_footprint (E : Env) (st : State) :
  exists_checks (trace (final (start E st))) = 2 + exists_checks (trace st)
  /\ connect_calls (trace (final (start E st))) = 1 + connect_calls (trace st)
  /\ tool_calls (trace (final (start E st))) = tool_calls (trace st)
  /\ close_calls (trace (final (start E st))) = close_calls (trace st).
Proof.
  rewrite start_run. unfold final. cbn [snd trace].
  unfold checked, python_check, script_check, prologue.
  destruct (fs_existsSync E _ (pythonPath E));
    destruct (fs_existsSync E _ (scriptPath E));
    destruct (client_connect E _ _ _) as [[]|e];
    cbn [connect_report]; count_events; repeat split; lia.
Qed.

(** X2. The lines [start] writes to the error stream: two for a missing
    interpreter, one for a missing script, one for a rejected connect.  The
    error stream stays silent exactly when both files were found and the
    connect was fulfilled. *)
Theorem start_error_lines (E : Env) (st : State) :
  let h1 := trace st ++ prologue E in
  let h2 := h1 ++ python_check E h1 in
  let h3 := h2 ++ script_check E h2 in
  let python_found := fs_existsSync E h1 (pythonPath E) in
  let script_found := fs_existsSync E h2 (scriptPath E) in
  let connected :=
    is_normal
      (client_connect E h3 (started_client st) (started_transport E st)) in
  error_lines (trace (final (start E st))) =
    error_lines (trace st)
    + (if python_found then 0 else 2)
    + (if script_found then 0 else 1)
    + (if connected then 0 else 1)
  /\ (error_lines (trace (final (start E st))) = error_lines (trace st) <->
      python_found && script_found && connected = true).
Proof.
  cbv zeta. rewrite start_run. unfold final. cbn [snd trace].
  unfold checked, python_check, script_check, prologue.
  destruct (fs_existsSync E _ (pythonPath E));
    destruct (fs_existsSync E _ (scriptPath E));
    destruct (client_connect E _ _ _) as [[]|e];
    cbn [connect_report is_normal andb]; count_events;
    (split; [lia | split; [intros; try reflexivity; lia | intros; try discriminate; lia]]).
Qed.

(** X3. [pingAgent] calls a tool once when the client field is set and not
    at all when it is [null]; it never connects, never closes, never asks
    [fs], and leaves the two fields as they were. *)
Theorem pingAgent_footprint (E : Env) (st : State) :
  tool_calls (trace (final (pingAgent E st))) =
    tool_calls (trace st)
    + match this_client st with Some _ => 1 | None => 0 end
  /\ connect_calls (trace (final (pingAgent E st))) = connect_calls (trace st)
  /\ close_calls (trace (final (pingAgent E st))) = close_calls (trace st)
  /\ exists_checks (trace (final (pingAgent E st))) = exists_checks (trace st)
  /\ this_client (final (pingAgent E st)) = this_client st
  /\ this_transport (final (pingAgent E st)) = this_transport st
  /\ next_id (final (pingAgent E st)) = next_id st.
Proof.
  destruct (this_client st) as [c|] eqn:Hc.
  - rewrite (pingAgent_run E st c Hc).
    unfold final, with_trace, ping_history.
    cbn [snd this_client this_transport next_id trace].
    destruct (ping_reply _); cbn [ping_report]; count_events;
      repeat split; auto; lia.
  - rewrite (pingAgent_idle E st Hc). unfold final. cbn [snd].
    repeat split; auto; lia.
Qed.

(** X4. [stop] never calls a tool, never connects, and never writes to the
    error stream, not even when the close is rejected; the line that
    reports the close is printed exactly when the close was fulfilled. *)
Theorem stop_footprint (E : Env) (st : State) :
  tool_calls (trace (final (stop E st))) = tool_calls (trace st)
  /\ connect_calls (trace (final (stop E st))) = connect_calls (trace st)
  /\ error_lines (trace (final (stop E st))) = error_lines (trace st)
  /\ next_id (final (stop E st)) = next_id st
  /\ (In (EvConsoleLog [JsString msg_closed])
         (skipn (length (trace st)) (trace (final (stop E st)))) <->
      this_transport st <> None
      /\ outcome (stop E st) = Normal JsUndefined).
Proof.
  destruct (this_transport st) as [t|] eqn:Ht.
  - rewrite (stop_run E st t Ht).
    destruct (transport_close E (trace st) t) as [[]|e];
      unfold final, outcome, with_trace; cbn [fst snd next_id trace];
      rewrite skipn_app, skipn_all, Nat.sub_diag; cbn [skipn app In];
      count_events; (do 4 (split; [lia |])).
    + split; [intros _; split; [discriminate | reflexivity] | auto].
    + split; [intros [H|[]]; discriminate H | intros [_ H]; discriminate H].
  - rewrite (stop_idle E st Ht). unfold final, outcome. cbn [fst snd].
    rewrite skipn_all. cbn [In]. do 4 (split; [reflexivity |]).
    split; [intros [] | intros [H _]; apply H; reflexivity].
Qed.

(** ** Sequences of calls: what is kept and what is counted *)

Lemma invoke_keeps_fields (E : Env) (c : Call) (st : State) :
  c <> CallStart ->
  this_client (final (invoke E c st)) = this_client st
  /\ this_transport (final (invoke E c st)) = this_transport st
  /\ next_id (final (invoke E c st)) = next_id st.
Proof.
  intros Hc. destruct c; [contradiction Hc; reflexivity | |]; cbn [invoke].
  - destruct (pingAgent_fields E st) as (H1 & H2 & _).
    repeat split; auto.
    destruct (this_client st) as [cl|] eqn:Hcl.
    + rewrite (pingAgent_run E st cl Hcl). reflexivity.
    + rewrite (pingAgent_idle E st Hcl). reflexivity.
  - destruct (stop_fields E st) as (H1 & H2 & _).
    repeat split; auto.
    destruct (this_transport st) as [t|] eqn:Ht.
    + rewrite (stop_run E st t Ht).
      destruct (transport_close E (trace st) t) as [[]|e]; reflexivity.
    + rewrite (stop_idle E st Ht). reflexivity.
Qed.

Lemma invoke_counts (E : Env) (c : Call) (st : State) :
  connect_calls (trace (final (invoke E c st))) =
    connect_calls (trace st) + (if is_start c then 1 else 0)
  /\ exists_checks (trace (final (invoke E c st))) =
       exists_checks (trace st) + (if is_start c then 2 else 0)
  /\ tool_calls (trace (final (invoke E c st))) =
       tool_calls (trace st)
       + (if is_ping c
          then match this_client st with Some _ => 1 | None => 0 end
          else 0)
  /\ close_calls (trace (final (invoke E c st))) =
       close_calls (trace st)
       + (if is_stop c
          then match this_transport st with Some _ => 1 | None => 0 end
          else 0).
Proof.
  destruct c; cbn [invoke is_start is_ping is_stop].
  - rewrite start_run. unfold final. cbn [snd trace].
    unfold checked, python_check, script_check, prologue.
    destruct (fs_existsSync E _ (pythonPath E));
      destruct (fs_existsSync E _ (scriptPath E));
      destruct (client_connect E _ _ _) as [[]|e];
      cbn [connect_report]; count_events; repeat split; lia.
  - destruct (this_client st) as [cl|] eqn:Hcl.
    + rewrite (pingAgent_run E st cl Hcl).
      unfold final, with_trace, ping_history. cbn [snd trace].
      destruct (ping_reply _); cbn [ping_report]; count_events;
        repeat split; lia.
    + rewrite (pingAgent_idle E st Hcl). unfold final. cbn [snd].
      repeat split; lia.
  - destruct (this_transport st) as [t|] eqn:Ht.
    + rewrite (stop_run E st t Ht).
      destruct (transport_close E (trace st) t) as [[]|e];
        unfold final, with_trace; cbn [snd trace]; count_events;
        repeat split; lia.
    + rewrite (stop_idle E st Ht). unfold final. cbn [snd].
      repeat split; lia.
Qed.

Lemma count_calls_cons (f : Call -> bool) (c : Call) (cs : list Call) :
  count_calls f (c :: cs) = (if f c then 1 else 0) + count_calls f cs.
Proof. unfold count_calls. cbn [filter]. destruct (f c); reflexivity. Qed.

(** Once both fields are set every ping and every stop reaches its
    collaborator. *)
Lemma run_calls_counts_started (E : Env) (cs : list Call) :
  forall st,
    this_client st <> None -> this_transport st <> None ->
    connect_calls (trace (run_calls E cs st)) =
      connect_calls (trace st) + count_calls is_start cs
    /\ exists_checks (trace (run_calls E cs st)) =
         exists_checks (trace st) + 2 * count_calls is_start cs
    /\ tool_calls (trace (run_calls E cs st)) =
         tool_calls (trace st) + count_calls is_ping cs
    /\ close_calls (trace (run_calls E cs st)) =
         close_calls (trace st) + count_calls is_stop cs.
Proof.
  induction cs as [|c cs IH]; intros st Hcl Htr; cbn [run_calls].
  - unfold count_calls. cbn. repeat split; lia.
  - destruct (invoke_counts E c st) as (K1 & K2 & K3 & K4).
    assert (Hnext : this_client (final (invoke E c st)) <> None
                    /\ this_transport (final (invoke E c st)) <> None).
    { destruct c.
      - cbn [invoke]. destruct (start_fields E st) as (H1 & H2 & _).
        rewrite H1, H2. split; discriminate.
      - destruct (invoke_keeps_fields E CallPing st) as (H1 & H2 & _);
          [discriminate |]. rewrite H1, H2. auto.
      - destruct (invoke_keeps_fields E CallStop st) as (H1 & H2 & _);
          [discriminate |]. rewrite H1, H2. auto. }
    destruct Hnext as [Hcl' Htr'].
    destruct (IH _ Hcl' Htr') as (I1 & I2 & I3 & I4).
    rewrite I1, I2, I3, I4, K1, K2, K3, K4, !count_calls_cons.
    destruct (this_client st); [| contradiction Hcl; reflexivity].
    destruct (this_transport st); [| contradiction Htr; reflexivity].
    destruct c; cbn [is_start is_ping is_stop]; repeat split; lia.
Qed.

(** Before the first [start] nothing reaches a collaborator. *)
Lemma run_calls_counts_idle (E : Env) (cs : list Call) :
  forall st,
    this_client st = None -> this_transport st = None ->
    connect_calls (trace (run_calls E cs st)) =
      connect_calls (trace st) + count_calls is_start cs
    /\ exists_checks (trace (run_calls E cs st)) =
         exists_checks (trace st) + 2 * count_calls is_start cs
    /\ tool_calls (trace (run_calls E cs st)) =
         tool_calls (trace st) + count_calls is_ping (after_first_start cs)
    /\ close_calls (trace (run_calls E cs st)) =
         close_calls (trace st) + count_calls is_stop (after_first_start cs).
Proof.
  induction cs as [|c cs IH]; intros st Hcl Htr; cbn [run_calls].
  - unfold count_calls. cbn. repeat split; lia.
  - destruct (invoke_counts E c st) as (K1 & K2 & K3 & K4).
    rewrite Hcl in K3. rewrite Htr in K4.
    destruct c; cbn [after_first_start is_start is_ping is_stop] in *.
    + destruct (start_fields E st) as (H1 & H2 & _).
      destruct (run_calls_counts_started E cs (final (start E st)))
        as (I1 & I2 & I3 & I4);
        [cbn [invoke] in *; rewrite H1; discriminate
        |cbn [invoke] in *; rewrite H2; discriminate |].
      cbn [invoke] in *.
      rewrite I1, I2, I3, I4, K1, K2, K3, K4, !count_calls_cons.
      cbn [is_start]. repeat split; lia.
    + destruct (invoke_keeps_fields E CallPing st) as (H1 & H2 & _);
        [discriminate |].
      destruct (IH (final (invoke E CallPing st))) as (I1 & I2 & I3 & I4);
        [rewrite H1; exact Hcl | rewrite H2; exact Htr |].
      rewrite I1, I2, I3, I4, K1, K2, K3, K4, !count_calls_cons.
      cbn [is_start]. repeat split; lia.
    + destruct (invoke_keeps_fields E CallStop st) as (H1 & H2 & _);
        [discriminate |].
      destruct (IH (final (invoke E CallStop st))) as (I1 & I2 & I3 & I4);
        [rewrite H1; exact Hcl | rewrite H2; exact Htr |].
      rewrite I1, I2, I3, I4, K1, K2, K3, K4, !count_calls_cons.
      cbn [is_start]. repeat split; lia.
Qed.

(** X5. On the shared instance, after any sequence of calls: one connect
    and two file checks per [start]; one tool call per [pingAgent] made
    after the first [start] and none before; one close per [stop] made
    after the first [start] and none before. *)
Theorem call_counts (E : Env) (cs : list Call) :
  connect_calls (trace (run_calls E cs agentManager)) =
    count_calls is_start cs
  /\ exists_checks (trace (run_calls E cs agentManager)) =
       2 * count_calls is_start cs
  /\ tool_calls (trace (run_calls E cs agentManager)) =
       count_calls is_ping (after_first_start cs)
  /\ close_calls (trace (run_calls E cs agentManager)) =
       count_calls is_stop (after_first_start cs).
Proof.
  destruct (run_calls_counts_idle E cs agentManager eq_refl eq_refl)
    as (I1 & I2 & I3 & I4).
  rewrite I1, I2, I3, I4. cbn. repeat split; lia.
Qed.

(** X6. Only [start] assigns: a sequence of [pingAgent] and [stop] calls
    leaves the two fields as they were, and builds no object. *)
Theorem only_start_assigns (E : Env) (cs : list Call) (st : State)
    (Hno : ~ In CallStart cs) :
  this_client (run_calls E cs st) = this_client st
  /\ this_transport (run_calls E cs st) = this_transport st
  /\ next_id (run_calls E cs st) = next_id st.
Proof.
  revert st. induction cs as [|c cs IH]; intros st; cbn [run_calls].
  - auto.
  - assert (Hc : c <> CallStart) by (intros ->; apply Hno; left; reflexivity).
    assert (Hcs : ~ In CallStart cs) by (intros H; apply Hno; right; exact H).
    destruct (IH Hcs (final (invoke E c st))) as (I1 & I2 & I3).
    destruct (invoke_keeps_fields E c st Hc) as (K1 & K2 & K3).
    rewrite I1, I2, I3. auto.
Qed.

Lemma only_start_assigns_witness :
  this_transport
    (run_calls Sample.broken [CallStop; CallPing; CallStop] healthy_started)
  = this_transport healthy_started.
Proof.
  apply (only_start_assigns Sample.broken [CallStop; CallPing; CallStop]
           healthy_started).
  cbn [In]. intros [H|[H|[H|[]]]]; discriminate H.
Defined.

(** X7. An instance whose fields are both [null] is inert under
    [pingAgent] and [stop]: whatever the order, the state stays the same,
    nothing is printed and no collaborator is reached. *)
Theorem unstarted_is_inert (E : Env) (cs : list Call) (st : State)
    (Hclient : this_client st = None)
    (Htransport : this_transport st = None)
    (Hno : ~ In CallStart cs) :
  run_calls E cs st = st.
Proof.
  induction cs as [|c cs IH]; cbn [run_calls].
  - reflexivity.
  - assert (Hcs : ~ In CallStart cs) by (intros H; apply Hno; right; exact H).
    destruct c.
    + contradiction Hno. left. reflexivity.
    + cbn [invoke]. rewrite (pingAgent_idle E st Hclient). apply IH, Hcs.
    + cbn [invoke]. rewrite (stop_idle E st Htransport). apply IH, Hcs.
Qed.

Lemma unstarted_is_inert_witness :
  run_calls Sample.broken [CallPing; CallStop; CallStop; CallPing] agentManager
  = agentManager.
Proof.
  apply (unstarted_is_inert Sample.broken
           [CallPing; CallStop; CallStop; CallPing] agentManager);
    [reflexivity | reflexivity |].
  cbn [In]. intros [H|[H|[H|[H|[]]]]]; discriminate H.
Defined.

(** ** The pair of fields *)

Lemma invoke_paired (E : Env) (c : Call) (st : State) :
  fields_paired E st -> fields_paired E (final (invoke E c st)).
Proof.
  intros Hp. destruct c.
  - cbn [invoke]. rewrite start_run. unfold fields_paired, final.
    cbn [snd this_client this_transport next_id started_client
         started_transport client_id transport_id client_name client_version
         capabilities command args].
    repeat split. lia.
  - destruct (invoke_keeps_fields E CallPing st) as (H1 & H2 & H3);
      [discriminate |].
    unfold fields_paired in *. rewrite H1, H2, H3. exact Hp.
  - destruct (invoke_keeps_fields E CallStop st) as (H1 & H2 & H3);
      [discriminate |].
    unfold fields_paired in *. rewrite H1, H2, H3. exact Hp.
Qed.

Lemma run_calls_paired (E : Env) (cs : list Call) :
  forall st, fields_paired E st -> fields_paired E (run_calls E cs st).
Proof.
  induction cs as [|c cs IH]; intros st Hp; cbn [run_calls].
  - exact Hp.
  - apply IH, invoke_paired, Hp.
Qed.

(** X8. On the shared instance, after any sequence of calls, the two fields
    are [null] together or set together; when set they hold the client and
    the transport built by one and the same run of [start]: the client is
    ["electron-host"] version ["1.0.0"] without capabilities, and the
    transport spawns the resolved interpreter on the resolved script. *)
Theorem fields_always_paired (E : Env) (cs : list Call) :
  fields_paired E (run_calls E cs agentManager)
  /\ (this_client (run_calls E cs agentManager) = None <->
      this_transport (run_calls E cs agentManager) = None).
Proof.
  assert (Hp : fields_paired E (run_calls E cs agentManager))
    by (apply run_calls_paired; exact I).
  split; [exact Hp |].
  unfold fields_paired in Hp.
  destruct (this_client (run_calls E cs agentManager)),
    (this_transport (run_calls E cs agentManager));
    try contradiction; split; intros H; try discriminate H; reflexivity.
Qed.

(** ** Transports that are replaced *)

Lemma invoke_built_since (n : nat) (E : Env) (c : Call) (st : State) :
  built_since n st ->
  built_since n (final (invoke E c st))
  /\ exists new,
       trace (final (invoke E c st)) = trace st ++ new
       /\ forall t, transport_id t < n -> ~ In (EvClose t) new.
Proof.
  intros [Hnext Hheld]. destruct c; cbn [invoke].
  - rewrite start_run. unfold final, built_since.
    cbn [snd this_transport next_id trace started_transport transport_id].
    split; [split; lia |].
    unfold checked, python_check, script_check, prologue.
    destruct (fs_existsSync E _ (pythonPath E));
      destruct (fs_existsSync E _ (scriptPath E));
      flatten_trace; eexists; (split; [reflexivity |]);
      intros t _ Hin; cbn [In] in Hin;
      repeat (destruct Hin as [Hin|Hin]; [discriminate Hin |]);
      destruct Hin as [Hin|[]];
      destruct (client_connect E _ _ _); cbn [connect_report] in Hin;
      discriminate Hin.
  - destruct (this_client st) as [cl|] eqn:Hcl.
    + rewrite (pingAgent_run E st cl Hcl).
      unfold final, with_trace, ping_history, built_since.
      cbn [snd this_transport next_id trace]. split; [split; assumption |].
      flatten_trace. eexists. split; [reflexivity |].
      intros t _ Hin. cbn [In] in Hin.
      destruct Hin as [Hin|[Hin|[Hin|[]]]]; try discriminate Hin.
      destruct (ping_reply _); discriminate Hin.
    + rewrite (pingAgent_idle E st Hcl). unfold final. cbn [snd].
      split; [split; assumption |].
      exists []. rewrite app_nil_r. split; [reflexivity | intros t _ []].
  - destruct (this_transport st) as [held|] eqn:Hh.
    + rewrite (stop_run E st held Hh).
      destruct (transport_close E (trace st) held) as [[]|e];
        unfold final, with_trace, built_since;
        cbn [snd this_transport next_id trace]; rewrite Hh;
        (split; [split; assumption |]);
        eexists; (split; [reflexivity |]);
        intros t Hlt Hin; cbn [In] in Hin.
      * destruct Hin as [Hin|[Hin|[]]]; [| discriminate Hin].
        injection Hin as ->. lia.
      * destruct Hin as [Hin|[]]. injection Hin as ->. lia.
    + rewrite (stop_idle E st Hh). unfold final. cbn [snd].
      split; [split; [assumption | rewrite Hh; exact I] |].
      exists []. rewrite app_nil_r. split; [reflexivity | intros t _ []].
Qed.

Lemma run_calls_built_since (n : nat) (E : Env) (cs : list Call) :
  forall st,
    built_since n st ->
    exists new,
      trace (run_calls E cs st) = trace st ++ new
      /\ forall t, transport_id t < n -> ~ In (EvClose t) new.
Proof.
  induction cs as [|c cs IH]; intros st Hb; cbn [run_calls].
  - exists []. rewrite app_nil_r. split; [reflexivity | intros t _ []].
  - destruct (invoke_built_since n E c st Hb) as (Hb' & new1 & Htr1 & Hno1).
    destruct (IH _ Hb') as (new2 & Htr2 & Hno2).
    exists (new1 ++ new2). split.
    + rewrite Htr2, Htr1, app_assoc. reflexivity.
    + intros t Hlt Hin. apply in_app_or in Hin.
      destruct Hin as [Hin|Hin]; [exact (Hno1 t Hlt Hin) | exact (Hno2 t Hlt Hin)].
Qed.

(** X9. Calling [start] on an instance that already holds a transport
    stores a different one, and the one it replaced is lost: whatever is
    called afterwards, that transport is never closed. *)
Theorem replaced_transport_never_closed (E : Env) (before after : list Call)
    (old : StdioClientTransport)
    (Hold : this_transport (run_calls E before agentManager) = Some old) :
  let restarted := final (start E (run_calls E before agentManager)) in
  this_transport restarted <> Some old
  /\ exists new,
       trace (run_calls E after restarted) = trace restarted ++ new
       /\ ~ In (EvClose old) new.
Proof.
  cbv zeta.
  assert (Hp : fields_paired E (run_calls E before agentManager))
    by (apply run_calls_paired; exact I).
  unfold fields_paired in Hp. rewrite Hold in Hp.
  destruct (this_client (run_calls E before agentManager)) as [c|];
    [| contradiction].
  destruct Hp as (Hid & Hlt & _).
  assert (Hold_lt : transport_id old < next_id (run_calls E before agentManager))
    by lia.
  destruct (start_fields E (run_calls E before agentManager)) as (_ & Ht & _).
  split.
  - rewrite Ht. intros Heq. injection Heq as Heq.
    apply (f_equal transport_id) in Heq. cbn [started_transport transport_id] in Heq.
    lia.
  - destruct (run_calls_built_since
                (next_id (run_calls E before agentManager)) E after
                (final (start E (run_calls E before agentManager))))
      as (new & Htr & Hno).
    + unfold built_since. rewrite Ht. rewrite start_run. unfold final.
      cbn [snd next_id started_transport transport_id]. split; lia.
    + exists new. split; [exact Htr | exact (Hno old Hold_lt)].
Qed.

Lemma replaced_transport_never_closed_witness :
  this_transport (final (start Sample.healthy healthy_started))
  <> Some (started_transport Sample.healthy initial)
  /\ exists new,
       trace (run_calls Sample.healthy [CallStop; CallPing; CallStop]
                (final (start Sample.healthy healthy_started)))
       = trace (final (start Sample.healthy healthy_started)) ++ new
       /\ ~ In (EvClose (started_transport Sample.healthy initial)) new.
Proof.
  exact (replaced_transport_never_closed Sample.healthy [CallStart]
           [CallStop; CallPing; CallStop]
           (started_transport Sample.healthy initial) eq_refl).
Defined.

(** ** start followed by stop *)

(** X10. [stop] right after [start] closes the transport that [start]
    built, once, whether or not the connect succeeded, and settles with what
    the close settles with. *)
Theorem stop_after_start (E : Env) (st : State) :
  let started := final (start E st) in
  let t := started_transport E st in
  outcome (stop E started) =
    match transport_close E (trace started) t with
    | Normal _ => Normal JsUndefined
    | Throw e => Throw e
    end
  /\ close_calls (trace (final (stop E started))) = S (close_calls (trace st))
  /\ exists tail,
       trace (final (stop E started)) = trace started ++ EvClose t :: tail.
Proof.
  cbv zeta.
  destruct (start_fields E st) as (_ & Ht & _).
  destruct (invoke_counts E CallStart st) as (_ & _ & _ & Kstart).
  destruct (invoke_counts E CallStop (final (start E st))) as (_ & _ & _ & Kstop).
  cbn [invoke is_stop] in Kstart, Kstop. rewrite Ht in Kstop.
  rewrite (stop_run E _ _ Ht).
  rewrite (stop_run E _ _ Ht) in Kstop.
  destruct (transport_close E (trace (final (start E st)))
              (started_transport E st)) as [[]|e];
    unfold outcome; cbn [fst]; (split; [reflexivity |]);
    (split; [rewrite Kstop, Kstart; lia |]);
    unfold final at 1, with_trace; cbn [snd trace]; eexists; reflexivity.
Qed.

(** ** More on pingAgent *)

Lemma get_field_missing (k : string) (fields : list (string * JsValue)) :
  (forall v, ~ In (k, v) fields) -> get_field k fields = JsUndefined.
Proof.
  induction fields as [|[k' v'] rest IH]; intros Hmissing; cbn [get_field].
  - reflexivity.
  - destruct (String.eqb_spec k' k) as [->|Hne].
    + exfalso. apply (Hmissing v'). left. reflexivity.
    + apply IH. intros v Hin. apply (Hmissing v). right. exact Hin.
Qed.

(** X11. When the first element of the answer has no [text] field (an
    image block, say), [pingAgent] is fulfilled with [undefined]: the missing
    field is not treated as a failure, and [undefined] is what gets
    printed. *)
Theorem pingAgent_without_text (E : Env) (st : State) (c : Client)
    (result : CallToolResult) (first : ContentBlock)
    (rest : list ContentBlock)
    (Hc : this_client st = Some c)
    (Hreply : client_callTool E (ping_history st) c "ping" [] = Normal result)
    (Hcontent : content result = first :: rest)
    (Hmissing : forall v, ~ In ("text", v) first) :
  pingAgent E st =
    (Normal JsUndefined,
     with_trace st
       (ping_history st ++
        [EvCallTool c "ping" [];
         EvConsoleLog [JsString msg_received; JsUndefined]])).
Proof.
  rewrite (pingAgent_run E st c Hc), Hreply. unfold ping_reply.
  rewrite Hcontent, (get_field_missing "text" first Hmissing). reflexivity.
Qed.

Lemma pingAgent_without_text_witness :
  outcome (pingAgent image_reply image_started) = Normal JsUndefined.
Proof.
  refine (f_equal fst
    (pingAgent_without_text image_reply image_started
       (started_client initial)
       {| content := [[("type", JsString "image");
                       ("data", JsString "AAAA")]] |}
       [("type", JsString "image"); ("data", JsString "AAAA")] []
       eq_refl eq_refl eq_refl _)).
  intros v [H|[H|[]]]; discriminate H.
Defined.

(** X12. [pingAgent] never fails silently: whenever it is rejected with
    [e], whether [e] came from the client or from reading the answer, the
    client field was set and the last thing written is the error line
    carrying that same [e]. *)
Theorem pingAgent_rejection_is_logged (E : Env) (st : State) (e : JsValue)
    (Hrejected : outcome (pingAgent E st) = Throw e) :
  this_client st <> None
  /\ exists history,
       trace (final (pingAgent E st)) =
         history ++ [EvConsoleError [JsString msg_ping_failed; e]].
Proof.
  destruct (this_client st) as [c|] eqn:Hc.
  - split; [discriminate |].
    rewrite (pingAgent_run E st c Hc) in *.
    unfold outcome, final, with_trace in *. cbn [fst snd trace] in *.
    rewrite Hrejected. cbn [ping_report].
    exists (ping_history st ++ [EvCallTool c "ping" []]).
    rewrite <- app_assoc. reflexivity.
  - rewrite (pingAgent_idle E st Hc) in Hrejected. discriminate Hrejected.
Qed.

Lemma pingAgent_rejection_is_logged_witness :
  exists history,
    trace (final (pingAgent Sample.empty_reply empty_started)) =
      history ++
      [EvConsoleError
         [JsString msg_ping_failed; cannot_read "undefined" "text"]].
Proof.
  exact (proj2 (pingAgent_rejection_is_logged Sample.empty_reply empty_started
                  (cannot_read "undefined" "text") eq_refl)).
Defined.
